(** * Shermbot / nuslam: the circle-fit library

    A shallow embedding of [src/nuslam/src/circle_fit_library.cpp]:
    [ClusterPoints] (segmentation of a 360-sample range scan) and [CircleFit]
    (hyper-accurate algebraic circle fit on top of Armadillo).

    - C++ [double] arithmetic is reached through the class [Double], with two
      instances: IEEE binary64 ([float], the kernel's primitive floats, which
      is what the program runs on) and the real numbers (used only where a
      statement is about the mathematical cosine and sine, or about the
      order of the numbers alone).
    - The readings of a scan are [float]s; every use widens them to
      [double], which is exact, so a scan is a list of [double]s here.
    - A read [v[i]] of a [std::vector] is unchecked: past the end it is
      undefined behaviour ([Undefined]).  An element access of an Armadillo
      vector or matrix is bounds-checked and throws ([Thrown]).
    - LAPACK-backed Armadillo routines ([svd], [eig_sym], [solve]) are not
      part of the repository: their numeric results are section variables,
      their result shapes are the ones Armadillo documents. *)

From Stdlib Require Import String.
From Stdlib Require Import List ZArith Lia Bool PeanoNat.
From Stdlib Require Import Floats Uint63.
From Stdlib Require Import Reals Lra.
Import ListNotations.

Set Implicit Arguments.

(** ** Outcomes *)

(** Exceptions that can leave [CircleFit]. *)
Inductive exn : Type :=
| index_out_of_bounds   (* Armadillo element access past the end *)
| solve_failed.         (* arma::solve found no solution *)

(** What running a piece of the program can produce. *)
Inductive result (A : Type) : Type :=
| Ok (a : A)
| Undefined             (* unchecked std::vector read past the end *)
| Thrown (e : exn)
| OutOfFuel.            (* the loop model ran out of iterations *)

Arguments Ok {A} a.
Arguments Undefined {A}.
Arguments Thrown {A} e.
Arguments OutOfFuel {A}.

Definition bind {A B : Type} (r : result A) (k : A -> result B) : result B :=
  match r with
  | Ok a => k a
  | Undefined => Undefined
  | Thrown e => Thrown e
  | OutOfFuel => OutOfFuel
  end.

Definition result_map {A B : Type} (f : A -> B) (r : result A) : result B :=
  bind r (fun a => Ok (f a)).

Declare Scope result_scope.
Delimit Scope result_scope with result.
Notation "x <- r ;; k" := (bind r (fun x => k))
  (at level 61, r at next level, right associativity) : result_scope.
Open Scope result_scope.

(** How control leaves the body of a value-returning function. *)
Inductive fn_exit (V L : Type) : Type :=
| Returns (v : V)        (* a [return] statement ran with value [v] *)
| FallsOffEnd (l : L).   (* control reached the closing brace; [l] are the
                            locals at that moment, which are then destroyed *)

Arguments Returns {V L} v.
Arguments FallsOffEnd {V L} l.

(** ** C++ [double] *)

Class Double (F : Type) : Type := {
  of_int : Z -> F;               (* conversion of an [int] to [double] *)
  lit : Z -> positive -> F;      (* the literal denoting [num / den] *)
  dadd : F -> F -> F;
  dsub : F -> F -> F;
  dmul : F -> F -> F;
  ddiv : F -> F -> F;
  dneg : F -> F;
  dsqrt : F -> F;                (* std::sqrt *)
  dfabs : F -> F;                (* std::fabs *)
  dpow2 : F -> F;                (* std::pow(x, 2) *)
  dlt : F -> F -> bool           (* [x < y]; [x > y] is [dlt y x] *)
}.

(** [cos] and [sin] of <cmath>. *)
Class Trig (F : Type) : Type := {
  dcos : F -> F;
  dsin : F -> F
}.

Declare Scope double_scope.
Delimit Scope double_scope with D.
Notation "x + y" := (dadd x y) : double_scope.
Notation "x - y" := (dsub x y) : double_scope.
Notation "x * y" := (dmul x y) : double_scope.
Notation "x / y" := (ddiv x y) : double_scope.
Notation "- x" := (dneg x) : double_scope.
Notation "x <? y" := (dlt x y) : double_scope.
Notation "x >? y" := (dlt y x) : double_scope.

(** *** IEEE binary64 *)

Definition float_of_int (z : Z) : float :=
  if (z <? 0)%Z then PrimFloat.opp (PrimFloat.of_uint63 (Uint63.of_Z (- z)))
  else PrimFloat.of_uint63 (Uint63.of_Z z).

#[export] Instance float_Double : Double float := {
  of_int := float_of_int;
  lit := fun n d => PrimFloat.div (float_of_int n) (float_of_int (Z.pos d));
  dadd := PrimFloat.add;
  dsub := PrimFloat.sub;
  dmul := PrimFloat.mul;
  ddiv := PrimFloat.div;
  dneg := PrimFloat.opp;
  dsqrt := PrimFloat.sqrt;
  dfabs := PrimFloat.abs;
  dpow2 := fun x => PrimFloat.mul x x;
  dlt := PrimFloat.ltb
}.

(** *** Real numbers *)

Definition Rltb (x y : R) : bool := if Rlt_dec x y then true else false.

#[export] Instance R_Double : Double R := {
  of_int := IZR;
  lit := fun n d => (IZR n / IZR (Z.pos d))%R;
  dadd := Rplus;
  dsub := Rminus;
  dmul := Rmult;
  ddiv := Rdiv;
  dneg := Ropp;
  dsqrt := sqrt;
  dfabs := Rabs;
  dpow2 := Rsqr;
  dlt := Rltb
}.

#[export] Instance R_Trig : Trig R := {
  dcos := cos;
  dsin := sin
}.

(** ** geometry_msgs::Point *)

Record Point (F : Type) : Type := {
  x : F;
  y : F;
  z : F
}.

Arguments x {F} p.
Arguments y {F} p.
Arguments z {F} p.

(** ** ClusterPoints *)

Section Clusterer.
Context {F : Type} {DF : Double F}.

(** Lines 146-148: the point built for the reading [r] at bearing
    [currAngle].  The [int] bearing is handed to [cos] and [sin] as it is. *)
Definition make_point {TF : Trig F} (r : F) (currAngle : nat) : Point F :=
  {| x := (r * dcos (of_int (Z.of_nat currAngle)))%D;
     y := (r * dsin (of_int (Z.of_nat currAngle)))%D;
     z := of_int 0 |}.

(** [ranges[i]]. *)
Definition subscript (ranges : list F) (i : nat) : result F :=
  match nth_error ranges i with
  | Some r => Ok r
  | None => Undefined
  end.

(** The body of the function does not depend on how the point is built:
    the construction of lines 146-148 is the argument [mk_point]. *)
Section Body.
Context {P : Type}.
Variable mk_point : F -> nat -> P.

(** The locals that live across the loops. *)
Record locals : Type := {
  clusters : list (list P);
  angle : nat;
  currCluster : list P
}.

Definition threshold : F := lit 25 1000.

(** One iteration of [while (angle < 359)], lines 127-167. *)
Definition while_body (ranges : list F) (minRange maxRange : F)
    (st : locals) : result locals :=
  r <- subscript ranges (angle st) ;;
  if (r >? maxRange)%D || (r <? minRange)%D then
    Ok {| clusters := clusters st;
          angle := angle st + 1;
          currCluster := currCluster st |}
  else
    let currAngle := angle st in
    let nextAngle := angle st + 1 in
    let nextAngle := if nextAngle =? 360 then 0 else nextAngle in
    currDist <- subscript ranges currAngle ;;
    nextDist <- subscript ranges nextAngle ;;
    r' <- subscript ranges currAngle ;;
    let point := mk_point r' currAngle in
    if (dfabs (currDist - nextDist) >? threshold)%D then
      Ok {| clusters := clusters st;
            angle := angle st + 1;
            currCluster := currCluster st ++ [point] |}
    else
      Ok {| clusters := clusters st ++ [currCluster st ++ [point]];
            angle := angle st + 1;
            currCluster := [] |}.

Fixpoint while_loop (fuel : nat) (ranges : list F) (minRange maxRange : F)
    (st : locals) : result locals :=
  if angle st <? 359 then
    match fuel with
    | O => OutOfFuel
    | S fuel' =>
        st' <- while_body ranges minRange maxRange st ;;
        while_loop fuel' ranges minRange maxRange st'
    end
  else Ok st.

(** [v.erase(v.begin() + i)]. *)
Definition erase_at {A : Type} (i : nat) (v : list A) : list A :=
  firstn i v ++ skipn (S i) v.

(** Lines 171-177: [for (int i = 0; i < clusters.size(); ++i)], erasing
    from the vector that is being walked. *)
Fixpoint erase_loop (fuel : nat) (i : nat) (cs : list (list P))
    : result (list (list P)) :=
  if i <? length cs then
    match fuel with
    | O => OutOfFuel
    | S fuel' =>
        match nth_error cs i with
        | Some c =>
            if length c <? 3
            then erase_loop fuel' (S i) (erase_at i cs)
            else erase_loop fuel' (S i) cs
        | None => Undefined
        end
    end
  else Ok cs.

(** The whole body.  No statement of it is a [return]. *)
Definition ClusterPoints_with (ranges : list F) (minRange maxRange : F)
    : result (fn_exit (list (list P)) locals) :=
  st <- while_loop 359 ranges minRange maxRange
          {| clusters := []; angle := 0; currCluster := [] |} ;;
  cs <- erase_loop (length (clusters st)) 0 (clusters st) ;;
  Ok (FallsOffEnd {| clusters := cs;
                     angle := angle st;
                     currCluster := currCluster st |}).
End Body.

Arguments locals : clear implicits.

(** [ClusterPoints] as the source has it. *)
Definition ClusterPoints {TF : Trig F} (ranges : list F)
    (minRange maxRange : F) :=
  ClusterPoints_with make_point ranges minRange maxRange.

(** The same run, keeping for each point the reading and the bearing it was
    built from. *)
Definition cluster_samples (ranges : list F) (minRange maxRange : F) :=
  ClusterPoints_with (fun r a => (r, a)) ranges minRange maxRange.

(** The same run, keeping the bearing only. *)
Definition cluster_bearings (ranges : list F) (minRange maxRange : F) :=
  ClusterPoints_with (fun _ a => a) ranges minRange maxRange.
End Clusterer.

Arguments locals : clear implicits.

(** ** CircleFit *)

(** visualization_msgs::Marker::type *)
Inductive marker_type : Type := CYLINDER.

(** The fields of visualization_msgs::Marker that [CircleFit] assigns; the
    others keep the value of the default constructor. *)
Record Marker (F : Type) : Type := {
  ns : String.string;
  id : Z;
  type : marker_type;
  pose_position_x : F;
  pose_position_y : F;
  scale_x : F;
  scale_y : F;
  color_a : F;
  color_r : F;
  color_g : F;
  color_b : F;
  frame_locked : bool
}.

(** What the LAPACK-backed routines of Armadillo compute.  Only the numbers
    are left open; the shapes of the results are fixed by the model below. *)
Record Lapack (F : Type) : Type := {
  svd_ok : list (list F) -> bool;              (* svd() succeeded *)
  svd_s : list (list F) -> nat -> F;           (* k-th singular value *)
  svd_V : list (list F) -> nat -> nat -> F;    (* V(i, j) *)
  eig_ok : list (list F) -> bool;              (* eig_sym() succeeded *)
  eig_val : list (list F) -> nat -> F;         (* k-th eigenvalue, ascending *)
  eig_vec : list (list F) -> nat -> nat -> F;  (* eigvec(i, j) *)
  solve_x : list (list F) -> list F -> option (nat -> F)
                                               (* solve(A, b), if found *)
}.

Section Fitter.
Context {F : Type} {DF : Double F}.
Variable lapack : Lapack F.

(** arma::vec and arma::mat (a matrix is the list of its rows). *)
Definition vec : Type := list F.
Definition mat : Type := list (list F).

Definition tabulate {A : Type} (n : nat) (f : nat -> A) : list A :=
  map f (seq 0 n).

(** [v(i)], bounds-checked. *)
Definition vec_at (v : vec) (i : nat) : result F :=
  match nth_error v i with
  | Some a => Ok a
  | None => Thrown index_out_of_bounds
  end.

Definition n_rows (m : mat) : nat := length m.
Definition n_cols (m : mat) : nat :=
  match m with
  | [] => 0
  | row :: _ => length row
  end.

Definition entry (m : mat) (i j : nat) : F :=
  nth j (nth i m []) (of_int 0).

(** [m.col(j)], bounds-checked. *)
Definition col (m : mat) (j : nat) : result vec :=
  if j <? n_cols m then Ok (map (fun row => nth j row (of_int 0)) m)
  else Thrown index_out_of_bounds.

(** [m(i, j) = v] for a position inside the matrix. *)
Definition mat_set (m : mat) (i j : nat) (v : F) : mat :=
  tabulate (n_rows m) (fun i' =>
    tabulate (n_cols m) (fun j' =>
      if (i' =? i) && (j' =? j) then v else entry m i' j')).

(** [mat(n, n, fill::eye)]. *)
Definition eye (n : nat) : mat :=
  tabulate n (fun i => tabulate n (fun j =>
    if i =? j then of_int 1 else of_int 0)).

(** [sum(v)]. *)
Definition sum (v : vec) : F := fold_left dadd v (of_int 0).

Definition dot (u v : vec) : F :=
  sum (map (fun p => (fst p * snd p)%D) (combine u v)).

(** [m.t()]. *)
Definition transpose (m : mat) : mat :=
  tabulate (n_cols m) (fun j => map (fun row => nth j row (of_int 0)) m).

(** [a * b]. *)
Definition mat_mul (a b : mat) : mat :=
  map (fun row => map (fun c => dot row c) (transpose b)) a.

(** [diagmat(s)]. *)
Definition diagmat (s : vec) : mat :=
  tabulate (length s) (fun i => tabulate (length s) (fun j =>
    if i =? j then nth i s (of_int 0) else of_int 0)).

(** [svd(U, s, V, Z)] for a matrix with four columns: [min(n_rows, 4)]
    singular values and a 4x4 matrix [V]; on failure the outputs are reset.
    [U] is not used by the caller. *)
Definition svd (Z : mat) : vec * mat :=
  if svd_ok lapack Z then
    (tabulate (Nat.min (n_rows Z) 4) (svd_s lapack Z),
     tabulate 4 (fun i => tabulate 4 (svd_V lapack Z i)))
  else ([], []).

(** [eig_sym(eigval, eigvec, Q)] for a 4x4 matrix. *)
Definition eig_sym (Q : mat) : vec * mat :=
  if eig_ok lapack Q then
    (tabulate 4 (eig_val lapack Q),
     tabulate 4 (fun i => tabulate 4 (eig_vec lapack Q i)))
  else ([], []).

(** [solve(Y, b)] for a 4x4 matrix. *)
Definition solve (Y : mat) (b : vec) : result vec :=
  match solve_x lapack Y b with
  | Some xs => Ok (tabulate 4 xs)
  | None => Thrown solve_failed
  end.

(** Lines 15-22: the centroid, accumulated point by point. *)
Definition centroid (data : list (Point F)) : F * F :=
  let n := of_int (Z.of_nat (length data)) in
  fold_left (fun acc point => (fst acc + x point / n, snd acc + y point / n)%D)
            data (of_int 0, of_int 0).

(** Lines 25-29. *)
Definition shift_to_centroid (x_hat y_hat : F) (data : list (Point F))
    : list (Point F) :=
  map (fun p => {| x := (x p - x_hat)%D; y := (y p - y_hat)%D; z := z p |})
      data.

(** Lines 32-38: the data matrix. *)
Definition data_matrix (data : list (Point F)) : mat :=
  map (fun p => [(dpow2 (x p) + dpow2 (y p))%D; x p; y p; of_int 1]) data.

(** Line 41. *)
Definition mean_z (Z : mat) : F :=
  (sum (map (fun row => nth 0 row (of_int 0)) Z)
     / of_int (Z.of_nat (n_rows Z)))%D.

(** Lines 44-48: the constraint matrix. *)
Definition H (z_bar : F) : mat :=
  let H := eye 4 in
  let H := mat_set H 0 0 (of_int 2 * z_bar)%D in
  let H := mat_set H 0 3 (of_int 2) in
  let H := mat_set H 3 0 (of_int 2) in
  mat_set H 3 3 (of_int 0).

(** Lines 51-55, under the comment "compute H^-1". *)
Definition Hinv (z_bar : F) : mat :=
  let Hinv := eye 4 in
  let Hinv := mat_set Hinv 0 0 (of_int 0) in
  let Hinv := mat_set Hinv 0 3 (lit 5 10) in
  let Hinv := mat_set Hinv 3 0 (lit 5 10) in
  mat_set Hinv 3 3 (of_int (-2) * z_bar)%D.

(** [INT_MAX] *)
Definition INT_MAX : Z := 2147483647.

(** Lines 78-88: the search for the smallest positive eigenvalue.  [rest]
    holds [eigval(i)], [eigval(i+1)], ... *)
Fixpoint eig_search (rest : vec) (i : nat) (eig_index : nat) (eig_max : F)
    : nat :=
  match rest with
  | [] => eig_index
  | e :: rest' =>
      if (e >? of_int 0)%D && (e <? eig_max)%D
      then eig_search rest' (S i) i e
      else eig_search rest' (S i) eig_index eig_max
  end.

Definition select_eig_index (eigval : vec) : nat :=
  eig_search eigval 0 0 (of_int INT_MAX).

(** Lines 64-91: the parameter vector [A]. *)
Definition solve_A (Z : mat) (Hinv : mat) : result vec :=
  let '(s, V) := svd Z in
  s3 <- vec_at s 3 ;;
  if (s3 <? lit 1 1000000000000)%D then
    col V 3
  else
    let Y := mat_mul (mat_mul V (diagmat s)) (transpose V) in
    let Q := mat_mul (mat_mul Y Hinv) Y in
    let '(eigval, eigvec) := eig_sym Q in
    let eig_index := select_eig_index eigval in
    Astar <- col eigvec eig_index ;;
    solve Y Astar.

(** Line 96, given the four entries of [A]. *)
Definition R2_of (A0 A1 A2 A3 : F) : F :=
  ((dpow2 A1 + dpow2 A2 - of_int 4 * A0 * A3) / (of_int 4 * dpow2 A0))%D.

(** Lines 93-113: from [A] to the marker. *)
Definition marker_of_A (A : vec) (x_hat y_hat : F) : result (Marker F) :=
  A1 <- vec_at A 1 ;;
  A0 <- vec_at A 0 ;;
  let a := (- A1 / (of_int 2 * A0))%D in
  A2 <- vec_at A 2 ;;
  let b := (- A2 / (of_int 2 * A0))%D in
  A3 <- vec_at A 3 ;;
  let R2 := R2_of A0 A1 A2 A3 in
  Ok {| ns := "real"%string;
        id := 1;
        type := CYLINDER;
        pose_position_x := (a + x_hat)%D;
        pose_position_y := (b + y_hat)%D;
        scale_x := dsqrt R2;
        scale_y := dsqrt R2;
        color_a := lit 1 1;
        color_r := lit 1 1;
        color_g := lit 1 1;
        color_b := lit 1 1;
        frame_locked := true |}.

Definition CircleFit (data : list (Point F)) : result (Marker F) :=
  let '(x_hat, y_hat) := centroid data in
  let data := shift_to_centroid x_hat y_hat data in
  let Z := data_matrix data in
  let z_bar := mean_z Z in
  let H := H z_bar in
  let Hinv := Hinv z_bar in
  A <- solve_A Z Hinv ;;
  marker_of_A A x_hat y_hat.

(** The vector [A] that [CircleFit] recovers for a cluster (lines 13-91). *)
Definition recovered_A (data : list (Point F)) : result vec :=
  let '(x_hat, y_hat) := centroid data in
  let data := shift_to_centroid x_hat y_hat data in
  let Z := data_matrix data in
  solve_A Z (Hinv (mean_z Z)).
End Fitter.

(** ** Concrete scans and clusters (IEEE binary64) *)

(** 360 equal readings, all in range. *)
Definition scan_flat : list float := repeat 1%float 360.

(** Bearings 0-9 read 1.0, bearing 10 and the following read 2.0. *)
Definition scan_step : list float := repeat 1%float 10 ++ repeat 2%float 350.

(** Bearing 1 and the bearings from 5 on are out of range (100.0). *)
Definition scan_hole : list float :=
  [1; 100; 1; 2; 2]%float ++ repeat 100%float 355.

(** The bearings of a cluster follow each other one by one. *)
Fixpoint consecutive (bs : list nat) : bool :=
  match bs with
  | a :: ((b :: _) as rest) => (b =? S a) && consecutive rest
  | _ => true
  end.

(** Four points around the origin, at distance 1. *)
Definition unit_cross : list (Point float) :=
  [ {| x := 1; y := 0; z := 0 |}; {| x := 0; y := 1; z := 0 |};
    {| x := -1; y := 0; z := 0 |}; {| x := 0; y := -1; z := 0 |} ]%float.

(** The eigenvalues of [Q], rounded to integers, for the cluster
    (1e5, 0), (0, 2e5), (-1e5, 0), (0, -2e5), ascending as [eig_sym] gives
    them: one negative, three positive and above [INT_MAX]. *)
Definition eigval_wide : list float :=
  [-108309518948; 8309518948; 20000000000; 80000000000]%float.


(** Four points on the line [y = 0]. *)
Definition collinear_four : list (Point float) :=
  [ {| x := -3; y := 0; z := 0 |}; {| x := -1; y := 0; z := 0 |};
    {| x := 1; y := 0; z := 0 |}; {| x := 3; y := 0; z := 0 |} ]%float.

(** An infinity or a NaN. *)
Definition non_finite (f : float) : bool :=
  match Prim2SF f with
  | S754_nan | S754_infinity _ => true
  | _ => false
  end.

(** The point the specification asks for at bearing [i]: the bearing is
    turned into radians before it reaches [cos] and [sin]. *)
Definition radians_point (r : R) (i : nat) : Point R :=
  {| x := (r * cos (INR i * PI / 180))%R;
     y := (r * sin (INR i * PI / 180))%R;
     z := 0%R |}.

(** A LAPACK that reports, for every matrix, a zero smallest singular value
    with right-singular vector [v]; these are the only entries the branch of
    line 68 reads, the others are zero. *)
Definition null_vector_lapack (v : list float) : Lapack float :=
  {| svd_ok := fun _ => true;
     svd_s := fun _ _ => 0%float;
     svd_V := fun _ i j => if j =? 3 then nth i v 0%float else 0%float;
     eig_ok := fun _ => false;
     eig_val := fun _ _ => 0%float;
     eig_vec := fun _ _ _ => 0%float;
     solve_x := fun _ _ => None |}.




(** * The literals of the source, as binary64 values *)

Lemma binary64_literals :
  (threshold : float) = 0x1.999999999999ap-6%float /\
  (lit 1 1000000000000 : float) = 0x1.19799812dea11p-40%float /\
  (lit 5 10 : float) = 0.5%float /\
  (of_int INT_MAX : float) = 2147483647%float.
Proof. repeat split; vm_compute; reflexivity. Qed.

(** * Properties of ClusterPoints *)

Section ClustererFacts.
Context {F : Type} {DF : Double F}.

(** The reading at bearing [i] exists and passes the range test of line
    128. *)
Definition validb (ranges : list F) (minRange maxRange : F) (i : nat)
    : bool :=
  match nth_error ranges i with
  | Some r => negb ((r >? maxRange)%D || (r <? minRange)%D)
  | None => false
  end.

(** The bearings below 359 with a reading in range, in scan order. *)
Definition valid_bearings (ranges : list F) (minRange maxRange : F)
    : list nat :=
  filter (validb ranges minRange maxRange) (seq 0 359).

(** [bs] is a run of neighbours in the sequence of valid bearings. *)
Definition valid_run (ranges : list F) (minRange maxRange : F)
    (bs : list nat) : Prop :=
  exists pre post,
    valid_bearings ranges minRange maxRange = pre ++ bs ++ post.

Section Generic.
Context {P : Type}.
Variable mk_point : F -> nat -> P.
Variable ranges : list F.
Variables minRange maxRange : F.

(** [p] is the point built at bearing [b]. *)
Definition built_at (p : P) (b : nat) : Prop :=
  exists r, nth_error ranges b = Some r /\ p = mk_point r b.

Lemma subscript_Ok (i : nat) (r : F) :
  nth_error ranges i = Some r -> subscript ranges i = Ok r.
Proof. unfold subscript; intros ->; reflexivity. Qed.

Lemma subscript_Undefined (i : nat) :
  nth_error ranges i = None -> subscript ranges i = Undefined.
Proof. unfold subscript; intros ->; reflexivity. Qed.

Lemma subscript_cases (i : nat) :
  (exists r, nth_error ranges i = Some r /\ subscript ranges i = Ok r) \/
  (length ranges <= i /\ subscript ranges i = Undefined).
Proof.
  unfold subscript.
  destruct (nth_error ranges i) as [r|] eqn:E.
  - left; exists r; auto.
  - right; split; [now apply nth_error_None | reflexivity].
Qed.

(** What one iteration does, case by case. *)
Inductive body_step (st : locals P) : result (locals P) -> Prop :=
| step_past_end :
    length ranges <= angle st ->
    body_step st Undefined
| step_out_of_range r :
    nth_error ranges (angle st) = Some r ->
    validb ranges minRange maxRange (angle st) = false ->
    body_step st (Ok {| clusters := clusters st;
                        angle := angle st + 1;
                        currCluster := currCluster st |})
| step_next_past_end r :
    nth_error ranges (angle st) = Some r ->
    validb ranges minRange maxRange (angle st) = true ->
    angle st + 1 <> 360 ->
    length ranges <= angle st + 1 ->
    body_step st Undefined
| step_large_gap r r' :
    nth_error ranges (angle st) = Some r ->
    validb ranges minRange maxRange (angle st) = true ->
    nth_error ranges (if angle st + 1 =? 360 then 0 else angle st + 1)
      = Some r' ->
    (dfabs (r - r') >? threshold)%D = true ->
    body_step st (Ok {| clusters := clusters st;
                        angle := angle st + 1;
                        currCluster :=
                          currCluster st ++ [mk_point r (angle st)] |})
| step_small_gap r r' :
    nth_error ranges (angle st) = Some r ->
    validb ranges minRange maxRange (angle st) = true ->
    nth_error ranges (if angle st + 1 =? 360 then 0 else angle st + 1)
      = Some r' ->
    (dfabs (r - r') >? threshold)%D = false ->
    body_step st (Ok {| clusters :=
                          clusters st
                            ++ [currCluster st ++ [mk_point r (angle st)]];
                        angle := angle st + 1;
                        currCluster := [] |}).

Lemma while_body_step (st : locals P) :
  angle st < 359 ->
  body_step st (while_body mk_point ranges minRange maxRange st).
Proof.
  intros Hlt. unfold while_body.
  destruct (subscript_cases (angle st)) as [(r & Hr & ->)|[Hlen ->]];
    [|now apply step_past_end].
  cbn [bind].
  destruct ((r >? maxRange)%D || (r <? minRange)%D) eqn:Hrange.
  - eapply step_out_of_range; eauto.
    unfold validb; now rewrite Hr, Hrange.
  - assert (Hv : validb ranges minRange maxRange (angle st) = true)
      by (unfold validb; now rewrite Hr, Hrange).
    assert (Hne : angle st + 1 <> 360) by lia.
    destruct (subscript_cases
                (if angle st + 1 =? 360 then 0 else angle st + 1))
      as [(r' & Hr' & ->)|[Hlen ->]]; cbn [bind].
    + destruct (dfabs (r - r') >? threshold)%D eqn:Hgap.
      * eapply step_large_gap; eauto.
      * eapply step_small_gap; eauto.
    + eapply step_next_past_end; eauto.
      now apply Nat.eqb_neq in Hne; rewrite Hne in Hlen.
Qed.

(** The loop invariant: the points collected so far, closed clusters
    first, are the points of the valid bearings below [angle]. *)
Definition collected (st : locals P) : Prop :=
  Forall2 built_at (concat (clusters st) ++ currCluster st)
          (filter (validb ranges minRange maxRange) (seq 0 (angle st))).

Lemma filter_seq_S (f : nat -> bool) (n : nat) :
  filter f (seq 0 (S n)) = filter f (seq 0 n) ++ (if f n then [n] else []).
Proof.
  rewrite seq_S, filter_app; cbn [filter Nat.add].
  now destruct (f n).
Qed.

Lemma collected_step (st : locals P) (r : result (locals P)) :
  body_step st r -> angle st < 359 -> collected st ->
  match r with
  | Ok st' => angle st' = S (angle st) /\ collected st'
  | Undefined => length ranges < 360
  | _ => False
  end.
Proof.
  unfold collected.
  intros Hstep Hlt Hinv.
  destruct Hstep as [?|r0 Hr Hv|r0 Hr Hv Hne Hlen|r0 r' Hr Hv Hr' Hgap
                      |r0 r' Hr Hv Hr' Hgap];
    cbn [angle clusters currCluster]; try lia;
    (split; [lia|]);
    replace (angle st + 1) with (S (angle st)) by lia;
    rewrite filter_seq_S, Hv.
  - now rewrite app_nil_r.
  - rewrite app_assoc.
    apply Forall2_app; [assumption|].
    constructor; [|constructor]. now exists r0.
  - rewrite concat_app; cbn [concat].
    rewrite !app_nil_r, app_assoc.
    apply Forall2_app; [assumption|].
    constructor; [|constructor]. now exists r0.
Qed.

Lemma while_loop_spec (fuel : nat) (st : locals P) :
  359 - angle st <= fuel -> angle st <= 359 -> collected st ->
  match while_loop mk_point fuel ranges minRange maxRange st with
  | Ok st' => angle st' = 359 /\ collected st'
  | Undefined => length ranges < 360
  | _ => False
  end.
Proof.
  revert st.
  induction fuel as [|fuel IH]; intros st Hfuel Hle Hinv; cbn [while_loop].
  - destruct (angle st <? 359) eqn:E.
    + apply Nat.ltb_lt in E; lia.
    + apply Nat.ltb_ge in E. split; [lia | assumption].
  - destruct (angle st <? 359) eqn:E.
    + apply Nat.ltb_lt in E.
      pose proof (collected_step (while_body_step st E) E Hinv) as Hs.
      destruct (while_body mk_point ranges minRange maxRange st)
        as [st'| | |]; cbn [bind]; try assumption.
      destruct Hs as [Ha Hc].
      apply IH; [lia | lia | assumption].
    + apply Nat.ltb_ge in E. split; [lia | assumption].
Qed.

Lemma erase_at_incl {A : Type} (i : nat) (v : list A) :
  incl (erase_at i v) v.
Proof.
  unfold erase_at. intros a Ha.
  apply in_app_or in Ha as [Ha|Ha].
  - rewrite <- (firstn_skipn i v). apply in_or_app; now left.
  - rewrite <- (firstn_skipn (S i) v). apply in_or_app; now right.
Qed.

Lemma erase_at_length {A : Type} (i : nat) (v : list A) :
  i < length v -> length (erase_at i v) = length v - 1.
Proof.
  intros Hi. unfold erase_at.
  rewrite length_app, length_firstn, length_skipn. lia.
Qed.

(** The filter loop always ends, and keeps only clusters it was given. *)
Lemma erase_loop_spec (fuel i : nat) (cs : list (list P)) :
  length cs - i <= fuel ->
  exists cs', erase_loop fuel i cs = Ok cs' /\ incl cs' cs.
Proof.
  revert i cs.
  induction fuel as [|fuel IH]; intros i cs Hfuel; cbn [erase_loop].
  - destruct (i <? length cs) eqn:E.
    + apply Nat.ltb_lt in E; lia.
    + exists cs; split; [reflexivity | apply incl_refl].
  - destruct (i <? length cs) eqn:E.
    + apply Nat.ltb_lt in E.
      destruct (nth_error cs i) as [c|] eqn:Hc.
      * destruct (length c <? 3).
        -- destruct (IH (S i) (erase_at i cs)) as (cs' & Hcs' & Hincl).
           { rewrite erase_at_length by assumption. lia. }
           exists cs'; split; [assumption|].
           eapply incl_tran; [eassumption | apply erase_at_incl].
        -- apply IH. lia.
      * apply nth_error_None in Hc. lia.
    + exists cs; split; [reflexivity | apply incl_refl].
Qed.

Lemma in_concat_split {A : Type} (c : list A) (cs : list (list A)) :
  In c cs -> exists p q, concat cs = p ++ c ++ q.
Proof.
  intros Hin. apply in_split in Hin as (l1 & l2 & ->).
  exists (concat l1), (concat l2).
  now rewrite concat_app.
Qed.

Lemma collected_cluster (st : locals P) (c : list P) :
  angle st = 359 -> collected st -> In c (clusters st) ->
  exists bs, valid_run ranges minRange maxRange bs /\ Forall2 built_at c bs.
Proof.
  unfold collected, valid_run, valid_bearings.
  intros -> Hinv Hin.
  apply in_concat_split in Hin as (p & q & Hpq).
  rewrite Hpq, <- !app_assoc in Hinv.
  apply Forall2_app_inv_l in Hinv as (pre & rest & _ & Hrest & Heq).
  apply Forall2_app_inv_l in Hrest as (bs & post & Hc & _ & Heq').
  exists bs; split; [|assumption].
  exists pre, post. now rewrite Heq, Heq'.
Qed.

(** Every run of the body, summed up. *)
Lemma ClusterPoints_with_spec :
  match ClusterPoints_with mk_point ranges minRange maxRange with
  | Ok (FallsOffEnd l) =>
      angle l = 359 /\
      Forall (fun c => exists bs,
                  valid_run ranges minRange maxRange bs /\
                  Forall2 built_at c bs)
             (clusters l)
  | Undefined => length ranges < 360
  | _ => False
  end.
Proof.
  unfold ClusterPoints_with.
  pose proof (@while_loop_spec 359
                {| clusters := []; angle := 0; currCluster := [] |}) as Hw.
  cbn [angle] in Hw.
  specialize (Hw ltac:(lia) ltac:(lia) ltac:(constructor)).
  destruct (while_loop mk_point 359 ranges minRange maxRange _)
    as [st| | |]; cbn [bind]; try assumption.
  destruct Hw as [Ha Hc].
  destruct (@erase_loop_spec (length (clusters st)) 0 (clusters st))
    as (cs' & -> & Hincl); [lia|].
  cbn [bind angle clusters]. split; [assumption|].
  apply Forall_forall. intros c Hin.
  eapply collected_cluster; eauto.
Qed.
End Generic.
End ClustererFacts.

(** ** The run does not look at the points it builds *)

Section Parametricity.
Context {F : Type} {DF : Double F} {P Q : Type}.
Variable mk_point : F -> nat -> P.
Variable g : P -> Q.
Variable ranges : list F.
Variables minRange maxRange : F.

Definition map_locals (st : locals P) : locals Q :=
  {| clusters := map (map g) (clusters st);
     angle := angle st;
     currCluster := map g (currCluster st) |}.

Definition map_exit (e : fn_exit (list (list P)) (locals P))
    : fn_exit (list (list Q)) (locals Q) :=
  match e with
  | Returns v => Returns (map (map g) v)
  | FallsOffEnd l => FallsOffEnd (map_locals l)
  end.

Lemma while_body_map (st : locals P) :
  while_body (fun r a => g (mk_point r a)) ranges minRange maxRange
             (map_locals st)
  = result_map map_locals (while_body mk_point ranges minRange maxRange st).
Proof.
  unfold while_body, result_map, map_locals; cbn [angle clusters currCluster].
  destruct (subscript ranges (angle st)) as [r| | |]; cbn [bind]; try reflexivity.
  destruct ((r >? maxRange)%D || (r <? minRange)%D); cbn [bind];
    [reflexivity|].
  destruct (subscript ranges (if angle st + 1 =? 360 then 0 else angle st + 1))
    as [r'| | |]; cbn [bind]; try reflexivity.
  destruct (dfabs (r - r') >? threshold)%D; cbn [bind];
    cbn [angle clusters currCluster];
    repeat (rewrite map_app; cbn [map]); reflexivity.
Qed.

Lemma while_loop_map (fuel : nat) (st : locals P) :
  while_loop (fun r a => g (mk_point r a)) fuel ranges minRange maxRange
             (map_locals st)
  = result_map map_locals
      (while_loop mk_point fuel ranges minRange maxRange st).
Proof.
  revert st. induction fuel as [|fuel IH]; intros st; cbn [while_loop];
    change (angle (map_locals st)) with (angle st);
    destruct (angle st <? 359); try reflexivity.
  rewrite while_body_map. unfold result_map at 1.
  destruct (while_body mk_point ranges minRange maxRange st) as [st'| | |];
    cbn [bind]; try reflexivity.
  apply IH.
Qed.

Lemma erase_at_map {A B : Type} (f : A -> B) (i : nat) (v : list A) :
  erase_at i (map f v) = map f (erase_at i v).
Proof. unfold erase_at. now rewrite map_app, firstn_map, skipn_map. Qed.

Lemma erase_loop_map (fuel i : nat) (cs : list (list P)) :
  erase_loop fuel i (map (map g) cs)
  = result_map (map (map g)) (erase_loop fuel i cs).
Proof.
  revert i cs. induction fuel as [|fuel IH]; intros i cs; cbn [erase_loop];
    rewrite length_map; destruct (i <? length cs); try reflexivity.
  rewrite nth_error_map.
  destruct (nth_error cs i) as [c|]; cbn [option_map]; [|reflexivity].
  rewrite length_map.
  destruct (length c <? 3); [|apply IH].
  rewrite erase_at_map. apply IH.
Qed.

Lemma ClusterPoints_with_map :
  ClusterPoints_with (fun r a => g (mk_point r a)) ranges minRange maxRange
  = result_map map_exit
      (ClusterPoints_with mk_point ranges minRange maxRange).
Proof.
  unfold ClusterPoints_with.
  change {| clusters := @nil (list Q); angle := 0; currCluster := [] |}
    with (map_locals {| clusters := []; angle := 0; currCluster := [] |}).
  rewrite while_loop_map. unfold result_map at 1.
  destruct (while_loop mk_point 359 ranges minRange maxRange _)
    as [st| | |]; cbn [bind]; try reflexivity.
  change (clusters (map_locals st)) with (map (map g) (clusters st)).
  rewrite length_map, erase_loop_map. unfold result_map.
  destruct (erase_loop _ 0 (clusters st)) as [cs| | |]; reflexivity.
Qed.
End Parametricity.

(** [ClusterPoints] is the run on samples with each sample turned into its
    point. *)
Definition point_of_sample {F : Type} {DF : Double F} {TF : Trig F}
    (s : F * nat) : Point F :=
  make_point (fst s) (snd s).

Lemma ClusterPoints_of_samples
    (F : Type) (DF : Double F) (TF : Trig F)
    (ranges : list F) (minRange maxRange : F) :
  ClusterPoints ranges minRange maxRange
  = result_map (map_exit point_of_sample)
      (cluster_samples ranges minRange maxRange).
Proof.
  unfold ClusterPoints, cluster_samples.
  now rewrite <- ClusterPoints_with_map.
Qed.

Lemma while_loop_of_samples
    (F : Type) (DF : Double F) (TF : Trig F) (fuel : nat)
    (ranges : list F) (minRange maxRange : F) (st : locals (F * nat)) :
  while_loop make_point fuel ranges minRange maxRange
             (map_locals point_of_sample st)
  = result_map (map_locals point_of_sample)
      (while_loop (fun r a => (r, a)) fuel ranges minRange maxRange st).
Proof. now rewrite <- while_loop_map. Qed.

(** C1.  Whatever the scan and the range bounds, [ClusterPoints] runs both
    loops to their end and leaves through the closing brace of its body: no
    run ends in [Returns], so the clusters it built are handed to nobody.
    The only other outcome is the undefined behaviour of reading a scan that
    has fewer than 360 readings past its end. *)
Theorem ClusterPoints_falls_off_end
    (F : Type) (DF : Double F) (TF : Trig F)
    (ranges : list F) (minRange maxRange : F) :
  (exists l, ClusterPoints ranges minRange maxRange = Ok (FallsOffEnd l)) \/
  (ClusterPoints ranges minRange maxRange = Undefined /\ length ranges < 360).
Proof.
  unfold ClusterPoints.
  pose proof (ClusterPoints_with_spec make_point ranges minRange maxRange) as Hs.
  destruct (ClusterPoints_with make_point ranges minRange maxRange)
    as [[v|l]| | |]; try contradiction.
  - left; now exists l.
  - right; now split.
Qed.

(** C10, as amended.  Every cluster left in [clusters] is a run of
    neighbours in the sequence of valid bearings (bearings 0..358 whose
    reading lies in [minRange, maxRange]), in scan order, and its points are
    the points built at those bearings: what lies between two members of a
    cluster is out-of-range readings only, which are skipped without closing
    the cluster. *)
Theorem ClusterPoints_clusters_are_valid_runs
    (F : Type) (DF : Double F) (TF : Trig F)
    (ranges : list F) (minRange maxRange : F) :
  (exists l,
      ClusterPoints ranges minRange maxRange = Ok (FallsOffEnd l) /\
      Forall (fun c => exists bs,
                  valid_run ranges minRange maxRange bs /\
                  Forall2 (built_at make_point ranges) c bs)
             (clusters l)) \/
  (ClusterPoints ranges minRange maxRange = Undefined /\ length ranges < 360).
Proof.
  unfold ClusterPoints.
  pose proof (ClusterPoints_with_spec make_point ranges minRange maxRange) as Hs.
  destruct (ClusterPoints_with make_point ranges minRange maxRange)
    as [[v|l]| | |]; try contradiction.
  - left; exists l; split; [reflexivity | apply Hs].
  - right; now split.
Qed.

(** C10, as stated, fails: on [scan_hole] the one cluster that is emitted
    holds the bearings 0, 2 and 3.  Bearing 1 is out of range and is skipped
    with the cluster left open, and the readings at 2 and 3 differ by 1.0. *)
Lemma ClusterPoints_cluster_not_consecutive :
  cluster_bearings scan_hole 0.5%float 10%float
    = Ok (FallsOffEnd {| clusters := [[0; 2; 3]];
                         angle := 359;
                         currCluster := [4] |})
  /\ forallb consecutive [[0; 2; 3]] = false.
Proof. split; vm_compute; reflexivity. Qed.

(** The same run of [ClusterPoints] itself, whatever [cos] and [sin]
    compute: the points of the one cluster are those built at the bearings
    0, 2 and 3. *)
Lemma ClusterPoints_scan_hole (TF : Trig float) :
  ClusterPoints scan_hole 0.5%float 10%float
  = Ok (FallsOffEnd
          {| clusters := [[make_point 1%float 0; make_point 1%float 2;
                           make_point 2%float 3]];
             angle := 359;
             currCluster := [make_point 2%float 4] |}).
Proof.
  rewrite ClusterPoints_of_samples.
  replace (cluster_samples scan_hole 0.5%float 10%float)
    with (Ok (FallsOffEnd
                {| clusters := [[(1%float, 0); (1%float, 2); (2%float, 3)]];
                   angle := 359;
                   currCluster := [(2%float, 4)] |})
            : result (fn_exit (list (list (float * nat))) (locals (float * nat))))
    by (vm_compute; reflexivity).
  reflexivity.
Qed.

(** C2.  On [scan_step] the loop closes a cluster after each of the bearings
    0..8, where the reading equals the next one, and keeps the cluster open
    across the jump from bearing 9 to bearing 10: the test of line 151 sends
    the large gap to the branch that continues the cluster.  The
    specification has the bearings 0-10 in one cluster. *)
Theorem while_loop_splits_on_small_gap (TF : Trig float) :
  while_loop make_point 359 scan_step 0.5%float 10%float
             {| clusters := []; angle := 0; currCluster := [] |}
  = Ok {| clusters :=
            map (fun a => [make_point 1%float a]) (seq 0 9)
              ++ [[make_point 1%float 9; make_point 2%float 10]]
              ++ map (fun a => [make_point 2%float a]) (seq 11 348);
          angle := 359;
          currCluster := [] |}.
Proof.
  change {| clusters := @nil (list (Point float)); angle := 0;
            currCluster := [] |}
    with (map_locals (point_of_sample (F := float))
            {| clusters := []; angle := 0; currCluster := [] |}).
  rewrite while_loop_of_samples.
  replace (while_loop (fun r a => (r, a)) 359 scan_step 0.5%float 10%float
             {| clusters := []; angle := 0; currCluster := [] |})
    with (Ok {| clusters :=
                  map (fun a => [(1%float, a)]) (seq 0 9)
                    ++ [[(1%float, 9); (2%float, 10)]]
                    ++ map (fun a => [(2%float, a)]) (seq 11 348);
                angle := 359;
                currCluster := [] |})
    by (vm_compute; reflexivity).
  unfold result_map, map_locals; cbn [bind clusters angle currCluster].
  now rewrite !map_app, !map_map.
Qed.

(** C4.  On [scan_flat] the loop closes 359 one-point clusters, and the
    filter that erases while it walks removes every other one: the 179
    one-point clusters of the odd bearings are left in [clusters]. *)
Theorem ClusterPoints_keeps_small_clusters (TF : Trig float) :
  exists l,
    ClusterPoints scan_flat 0.5%float 10%float = Ok (FallsOffEnd l) /\
    clusters l = map (fun k => [make_point 1%float (2 * k + 1)]) (seq 0 179) /\
    Forall (fun c => length c = 1) (clusters l).
Proof.
  rewrite ClusterPoints_of_samples.
  replace (cluster_samples scan_flat 0.5%float 10%float)
    with (Ok (FallsOffEnd
                {| clusters := map (fun k => [(1%float, 2 * k + 1)]) (seq 0 179);
                   angle := 359;
                   currCluster := [] |})
            : result (fn_exit (list (list (float * nat))) (locals (float * nat))))
    by (vm_compute; reflexivity).
  unfold result_map, map_exit, map_locals; cbn [bind clusters].
  eexists; split; [reflexivity|]. cbn [clusters].
  rewrite map_map. split; [reflexivity|].
  apply Forall_forall. intros c Hc.
  apply in_map_iff in Hc as (k & <- & _). reflexivity.
Qed.

(** ** The bearing and the trigonometric functions *)

(** C3.  On the reals, the point built for the reading 1.0 at bearing 1 is
    [(cos 1, sin 1)], the point one radian round the circle; the point of
    the specification, [(cos (PI/180), sin (PI/180))], lies elsewhere. *)
Theorem make_point_takes_degrees_for_radians :
  x (make_point 1%R 1) = cos 1 /\
  y (make_point 1%R 1) = sin 1 /\
  (x (make_point 1%R 1) < x (radians_point 1 1))%R /\
  (y (radians_point 1 1) < y (make_point 1%R 1))%R.
Proof.
  assert (Hx : x (make_point 1%R 1) = cos 1)
    by (cbn; apply Rmult_1_l).
  assert (Hy : y (make_point 1%R 1) = sin 1)
    by (cbn; apply Rmult_1_l).
  rewrite Hx, Hy. cbn [x y radians_point INR].
  rewrite !Rmult_1_l.
  pose proof PI_4 as H4. pose proof PI2_1 as H1. pose proof PI_RGT_0 as H0.
  repeat split.
  - apply cos_decreasing_1; lra.
  - apply sin_increasing_1; lra.
Qed.

(** * Properties of CircleFit *)

Unset Implicit Arguments.

Section FitterFacts.
Context {F : Type} {DF : Double F}.
Variable lapack : Lapack F.

Lemma length_tabulate {A : Type} (n : nat) (f : nat -> A) :
  length (tabulate n f) = n.
Proof. unfold tabulate. now rewrite length_map, length_seq. Qed.

Lemma length_data_matrix (data : list (Point F)) :
  n_rows (data_matrix data) = length data.
Proof. unfold n_rows, data_matrix. apply length_map. Qed.

Lemma length_shift_to_centroid (x_hat y_hat : F) (data : list (Point F)) :
  length (shift_to_centroid x_hat y_hat data) = length data.
Proof. unfold shift_to_centroid. apply length_map. Qed.

(** The number of singular values [svd] hands back. *)
Lemma svd_length (Z : mat) :
  length (fst (svd lapack Z)) = 0 \/
  length (fst (svd lapack Z)) = Nat.min (n_rows Z) 4.
Proof.
  unfold svd. destruct (svd_ok lapack Z); cbn [fst].
  - right. apply length_tabulate.
  - now left.
Qed.

(** With fewer than four rows in the data matrix, [s(3)] is out of bounds. *)
Lemma solve_A_short (Z Hi : mat) :
  n_rows Z < 4 -> solve_A lapack Z Hi = Thrown index_out_of_bounds.
Proof.
  intros Hlt. unfold solve_A.
  pose proof (svd_length Z) as Hlen.
  destruct (svd lapack Z) as [s V]; cbn [fst] in Hlen.
  assert (Hs : nth_error s 3 = None) by (apply nth_error_None; lia).
  unfold vec_at. now rewrite Hs.
Qed.

Lemma CircleFit_short (data : list (Point F)) :
  length data < 4 -> CircleFit lapack data = Thrown index_out_of_bounds.
Proof.
  intros Hlt. unfold CircleFit.
  destruct (centroid data) as [x_hat y_hat].
  rewrite solve_A_short; [reflexivity|].
  now rewrite length_data_matrix, length_shift_to_centroid.
Qed.
End FitterFacts.

(** C8.  A cluster of three points, which always lies on a circle, gets no
    estimate: the data matrix has three rows, [svd] yields three singular
    values, and reading [s(3)] throws, whatever LAPACK computed. *)
Theorem CircleFit_three_points_throws
    (F : Type) (DF : Double F) (lapack : Lapack F) (p1 p2 p3 : Point F) :
  CircleFit lapack [p1; p2; p3] = Thrown index_out_of_bounds.
Proof. apply CircleFit_short. cbn [length]. lia. Qed.

(** C6.  For [unit_cross] the mean of the first column is 1, and the
    product of the two matrices built from it has -3 in its top right
    corner, where the identity matrix has 0. *)
Theorem H_times_Hinv_not_identity :
  mean_z (data_matrix
            (shift_to_centroid (fst (centroid unit_cross))
                               (snd (centroid unit_cross)) unit_cross))
    = 1%float /\
  mat_mul (H 1%float) (Hinv 1%float)
    = [ [1; 0; 0; -3]; [0; 1; 0; 0]; [0; 0; 1; 0]; [0; 0; 0; 1] ]%float /\
  eye 4 = [ [1; 0; 0; 0]; [0; 1; 0; 0]; [0; 0; 1; 0]; [0; 0; 0; 1] ]%float.
Proof. repeat split; vm_compute; reflexivity. Qed.

(** ** The constraint matrix, in exact arithmetic *)

Ltac matrix_entries :=
  cbv [entry mat_mul H Hinv mat_set eye tabulate transpose dot sum n_rows
       n_cols map seq nth combine fold_left fst snd length Nat.eqb andb
       of_int lit dadd dmul R_Double];
  repeat (apply f_equal2; [try field | ]); try reflexivity.

(** The product of the two matrices of lines 44-55 for any [z_bar]: the
    identity but for the corner, which holds [-3 * z_bar]. *)
Lemma H_times_Hinv_exact (z_bar : R) :
  mat_mul (H z_bar) (Hinv z_bar)
  = [ [1; 0; 0; -3 * z_bar]; [0; 1; 0; 0]; [0; 0; 1; 0]; [0; 0; 0; 1] ]%R.
Proof. matrix_entries. Qed.

(** [Hinv] is the inverse of the matrix that has [8 * z_bar] where line 45
    writes [2 * z_bar]. *)
Lemma Hinv_inverts_8_z_bar (z_bar : R) :
  mat_mul (mat_set (H z_bar) 0 0 (8 * z_bar)%R) (Hinv z_bar)
  = [ [1; 0; 0; 0]; [0; 1; 0; 0]; [0; 0; 1; 0]; [0; 0; 0; 1] ]%R.
Proof. matrix_entries. Qed.

(** When no eigenvalue passes the test of line 83 against [INT_MAX], the
    search ends where it started, at index 0. *)
Lemma eig_search_no_candidate (F : Type) (DF : Double F) (rest : list F)
    (i : nat) :
  forallb (fun e => negb ((e >? of_int 0)%D && (e <? of_int INT_MAX)%D)) rest
    = true ->
  eig_search rest i 0 (of_int INT_MAX) = 0.
Proof.
  revert i. induction rest as [|e rest IH]; intros i Hall; [reflexivity|].
  cbn [forallb] in Hall. apply andb_prop in Hall as [He Hrest].
  cbn [eig_search]. apply negb_true_iff in He. rewrite He. now apply IH.
Qed.

(** C7.  On [eigval_wide] no eigenvalue lies between 0 and [INT_MAX], so
    the search keeps its initial index 0, which holds the negative
    eigenvalue; the smallest positive one is at index 1. *)
Theorem select_eig_index_picks_negative :
  select_eig_index eigval_wide = 0 /\
  (nth 0 eigval_wide 0 <? 0)%float = true /\
  forallb (fun e => (nth 1 eigval_wide 0 <=? e)%float) (skipn 1 eigval_wide)
    = true /\
  (0 <? nth 1 eigval_wide 0)%float = true.
Proof. repeat split; vm_compute; reflexivity. Qed.

(** ** The eigenvalue search, on an exact order *)

Section EigSearch.

Lemma Rltb_true (a b : R) : Rltb a b = true <-> (a < b)%R.
Proof. unfold Rltb. destruct (Rlt_dec a b); split; easy. Qed.

Lemma Rltb_false (a b : R) : Rltb a b = false <-> (b <= a)%R.
Proof.
  unfold Rltb. destruct (Rlt_dec a b); split; try easy; intros; lra.
Qed.

(** What the search knows after the eigenvalues [pre]: [eig_max] bounds
    the positive ones from below, and once it has left its initial value
    [eig_index] is the first place where it occurs. *)
Definition searched (pre : list R) (eig_index : nat) (eig_max : R) : Prop :=
  (eig_max <= IZR INT_MAX)%R /\
  (forall j, j < length pre -> (0 < nth j pre 0)%R ->
             (eig_max <= nth j pre 0)%R) /\
  ((eig_max = IZR INT_MAX /\ eig_index = 0) \/
   (eig_index < length pre /\ nth eig_index pre 0%R = eig_max /\
    (0 < eig_max)%R /\
    forall j, j < eig_index -> nth j pre 0%R <> eig_max)).

Lemma searched_snoc (pre : list R) (e : R) (eig_index : nat) (eig_max : R) :
  searched pre eig_index eig_max ->
  if Rltb 0 e && Rltb e eig_max
  then searched (pre ++ [e]) (length pre) e
  else searched (pre ++ [e]) eig_index eig_max.
Proof.
  intros (Hmax & Hmin & Hidx).
  assert (Hnth : forall j, j < length (pre ++ [e]) ->
            (j < length pre /\ nth j (pre ++ [e]) 0%R = nth j pre 0%R) \/
            (j = length pre /\ nth j (pre ++ [e]) 0%R = e)).
  { intros j Hj. rewrite length_app in Hj. cbn [length] in Hj.
    destruct (Nat.lt_ge_cases j (length pre)) as [Hlt|Hge].
    - left. split; [assumption|]. now apply app_nth1.
    - right. assert (j = length pre) by lia. subst j. split; [reflexivity|].
      rewrite app_nth2, Nat.sub_diag by lia. reflexivity. }
  destruct (Rltb 0 e) eqn:Hpos; cbn [andb];
    [destruct (Rltb e eig_max) eqn:Hlt|].
  - apply Rltb_true in Hpos. apply Rltb_true in Hlt.
    split; [lra|]. split.
    + intros j Hj Hp. destruct (Hnth j Hj) as [[Hj' Hv]|[_ Hv]];
        rewrite Hv in *; [|lra].
      specialize (Hmin j Hj' Hp). lra.
    + right. rewrite length_app. cbn [length].
      split; [lia|]. split.
      { rewrite app_nth2, Nat.sub_diag by lia. reflexivity. }
      split; [assumption|].
      intros j Hj. rewrite app_nth1 by assumption.
      destruct (Rlt_dec 0 (nth j pre 0%R)) as [Hp|Hn].
      * specialize (Hmin j Hj Hp). lra.
      * lra.
  - apply Rltb_true in Hpos. apply Rltb_false in Hlt.
    split; [assumption|]. split.
    + intros j Hj Hp. destruct (Hnth j Hj) as [[Hj' Hv]|[_ Hv]];
        rewrite Hv in *; [|lra].
      now apply Hmin.
    + destruct Hidx as [Hinit|(Hi & Hv & Hp & Hfirst)]; [now left|right].
      rewrite length_app. cbn [length]. split; [lia|].
      split; [now rewrite app_nth1|]. split; [assumption|].
      intros j Hj. rewrite app_nth1 by lia. now apply Hfirst.
  - apply Rltb_false in Hpos.
    split; [assumption|]. split.
    + intros j Hj Hp. destruct (Hnth j Hj) as [[Hj' Hv]|[_ Hv]];
        rewrite Hv in *; [|lra].
      now apply Hmin.
    + destruct Hidx as [Hinit|(Hi & Hv & Hp & Hfirst)]; [now left|right].
      rewrite length_app. cbn [length]. split; [lia|].
      split; [now rewrite app_nth1|]. split; [assumption|].
      intros j Hj. rewrite app_nth1 by lia. now apply Hfirst.
Qed.

Lemma eig_search_searched (rest pre : list R) (eig_index : nat) (eig_max : R) :
  searched pre eig_index eig_max ->
  exists m,
    searched (pre ++ rest)
             (eig_search rest (length pre) eig_index eig_max) m.
Proof.
  revert pre eig_index eig_max.
  induction rest as [|e rest IH]; intros pre eig_index eig_max Hs.
  - exists eig_max. now rewrite app_nil_r.
  - cbn [eig_search]. pose proof (searched_snoc pre e eig_index eig_max Hs) as Hstep.
    change (e >? of_int 0)%D with (Rltb 0 e).
    change (e <? eig_max)%D with (Rltb e eig_max).
    replace (pre ++ e :: rest) with ((pre ++ [e]) ++ rest)
      by (now rewrite <- app_assoc).
    replace (S (length pre)) with (length (pre ++ [e]))
      by (rewrite length_app; cbn [length]; lia).
    destruct (Rltb 0 e && Rltb e eig_max); now apply IH.
Qed.

(** When some eigenvalue lies strictly between 0 and [INT_MAX], the index
    the search returns holds the smallest positive eigenvalue, and it is
    the first index that does. *)
Theorem select_eig_index_smallest_positive (eigval : list R) :
  (exists e, In e eigval /\ (0 < e < IZR INT_MAX)%R) ->
  select_eig_index eigval < length eigval /\
  (0 < nth (select_eig_index eigval) eigval 0)%R /\
  (forall j, j < length eigval -> (0 < nth j eigval 0)%R ->
             (nth (select_eig_index eigval) eigval 0 <= nth j eigval 0)%R) /\
  (forall j, j < select_eig_index eigval ->
             nth j eigval 0%R <> nth (select_eig_index eigval) eigval 0%R).
Proof.
  intros (e & Hin & Hpos & Hlt).
  assert (H0 : searched [] 0 (IZR INT_MAX)).
  { split; [lra|]. split; [cbn [length]; intros; lia | now left]. }
  destruct (eig_search_searched eigval [] 0 _ H0) as (m & Hmax & Hmin & Hidx).
  cbn [app length] in *.
  change (eig_search eigval 0 0 (IZR INT_MAX)) with (select_eig_index eigval)
    in *.
  apply (In_nth _ _ 0%R) in Hin as (k & Hk & Hnth).
  assert (Hm : (m <= e)%R) by (rewrite <- Hnth; apply Hmin; [assumption|lra]).
  destruct Hidx as [[Hinit _]|(Hi & Hv & Hp & Hfirst)]; [lra|].
  rewrite Hv. repeat split; assumption.
Qed.
End EigSearch.

Lemma select_eig_index_smallest_positive_witness :
  select_eig_index [-1; 2; 2; 5]%R < length [-1; 2; 2; 5]%R /\
  (0 < nth (select_eig_index [-1; 2; 2; 5]%R) [-1; 2; 2; 5]%R 0)%R /\
  (forall j, j < length [-1; 2; 2; 5]%R -> (0 < nth j [-1; 2; 2; 5]%R 0)%R ->
             (nth (select_eig_index [-1; 2; 2; 5]%R) [-1; 2; 2; 5]%R 0
              <= nth j [-1; 2; 2; 5]%R 0)%R) /\
  (forall j, j < select_eig_index [-1; 2; 2; 5]%R ->
             nth j [-1; 2; 2; 5]%R 0%R
             <> nth (select_eig_index [-1; 2; 2; 5]%R) [-1; 2; 2; 5]%R 0%R).
Proof.
  apply (select_eig_index_smallest_positive [-1; 2; 2; 5]%R).
  exists 2%R. split.
  - cbn [In]. right. left. reflexivity.
  - unfold INT_MAX. lra.
Defined.

(** ** The conversion of [A] into a marker, on binary64 *)

Lemma eqb_zero_inv (a : float) :
  (a =? 0)%float = true -> exists s, Prim2SF a = S754_zero s.
Proof.
  rewrite FloatAxioms.eqb_spec.
  change (Prim2SF 0%float) with (S754_zero false).
  destruct (Prim2SF a) as [s|s| |s m e]; cbn; try discriminate.
  - eauto.
  - destruct s; discriminate.
  - destruct s; discriminate.
Qed.

Lemma ltb_zero_inv (a : float) :
  (a <? 0)%float = true ->
  Prim2SF a = S754_infinity true \/ exists m e, Prim2SF a = S754_finite true m e.
Proof.
  rewrite FloatAxioms.ltb_spec.
  change (Prim2SF 0%float) with (S754_zero false).
  destruct (Prim2SF a) as [s|s| |s m e]; cbn; try discriminate.
  - destruct s; [auto | discriminate].
  - destruct s; [eauto | discriminate].
Qed.

Lemma mul_zero_r (c d : float) (s : bool) :
  Prim2SF d = S754_zero s -> non_finite c = false ->
  exists s', Prim2SF (c * d) = S754_zero s'.
Proof.
  unfold non_finite. intros Hd Hc.
  rewrite FloatAxioms.mul_spec, Hd. unfold SF64mul, SFmul.
  destruct (Prim2SF c); try discriminate; eauto.
Qed.

Lemma div_by_zero (n d : float) (s : bool) :
  Prim2SF d = S754_zero s -> non_finite (n / d) = true.
Proof.
  intros Hd. unfold non_finite.
  rewrite FloatAxioms.div_spec, Hd. unfold SF64div, SFdiv.
  destruct (Prim2SF n); reflexivity.
Qed.

Lemma sqrt_non_finite (a : float) :
  non_finite a = true -> non_finite (PrimFloat.sqrt a) = true.
Proof.
  unfold non_finite. rewrite FloatAxioms.sqrt_spec. unfold SF64sqrt, SFsqrt.
  destruct (Prim2SF a) as [s|s| |s m e]; try discriminate; try reflexivity.
  destruct s; reflexivity.
Qed.

Lemma sqrt_negative (a : float) :
  (a <? 0)%float = true -> non_finite (PrimFloat.sqrt a) = true.
Proof.
  intros Hlt. unfold non_finite.
  rewrite FloatAxioms.sqrt_spec. unfold SF64sqrt, SFsqrt.
  destruct (ltb_zero_inv a Hlt) as [-> | (m & e & ->)]; reflexivity.
Qed.

Lemma add_non_finite_l (a b : float) :
  non_finite a = true -> non_finite (a + b) = true.
Proof.
  unfold non_finite. rewrite FloatAxioms.add_spec. unfold SF64add, SFadd.
  destruct (Prim2SF a) as [s|s| |s m e]; try discriminate;
    destruct (Prim2SF b) as [s'|s'| |s' m' e']; try reflexivity;
    destruct s, s'; reflexivity.
Qed.

(** With [A0] zero, both divisors of lines 94-96 are zero. *)
Lemma divisors_zero (A0 : float) :
  (A0 =? 0)%float = true ->
  (exists s, Prim2SF (of_int 2 * A0)%D = S754_zero s) /\
  (exists s, Prim2SF (of_int 4 * dpow2 A0)%D = S754_zero s).
Proof.
  intros Hz. destruct (eqb_zero_inv A0 Hz) as [s Hs].
  cbn [of_int dmul dpow2 float_Double].
  change (float_of_int 2) with 2%float.
  change (float_of_int 4) with 4%float.
  split.
  - eapply mul_zero_r; [eassumption | reflexivity].
  - assert (Hsq : exists s', Prim2SF (A0 * A0) = S754_zero s').
    { rewrite FloatAxioms.mul_spec, Hs. cbn. eauto. }
    destruct Hsq as [s' Hs'].
    eapply mul_zero_r; [eassumption | reflexivity].
Qed.

(** Lines 93-113 have no check: when [A0] is zero or the closed-form [R2] is
    negative they still return a marker, and the radius it carries in
    [scale] is an infinity or a NaN; with [A0] zero the centre coordinates
    are infinities or NaNs as well. *)
Lemma marker_of_A_unguarded (A0 A1 A2 A3 x_hat y_hat : float) :
  (A0 =? 0)%float = true \/ (R2_of A0 A1 A2 A3 <? 0)%float = true ->
  exists m,
    marker_of_A [A0; A1; A2; A3] x_hat y_hat = Ok m /\
    non_finite (scale_x m) = true /\
    non_finite (scale_y m) = true /\
    ((A0 =? 0)%float = true ->
     non_finite (pose_position_x m) = true /\
     non_finite (pose_position_y m) = true).
Proof.
  intros Hdeg.
  unfold marker_of_A, vec_at; cbn [nth_error bind].
  eexists; split; [reflexivity|].
  cbn [scale_x scale_y pose_position_x pose_position_y].
  assert (Hr : non_finite (dsqrt (R2_of A0 A1 A2 A3)) = true).
  { destruct Hdeg as [Hz|Hneg].
    - apply sqrt_non_finite. unfold R2_of.
      destruct (divisors_zero A0 Hz) as [_ [s Hs]].
      eapply div_by_zero; eassumption.
    - now apply sqrt_negative. }
  split; [assumption|]. split; [assumption|].
  intros Hz. destruct (divisors_zero A0 Hz) as [[s Hs] _].
  split; apply add_non_finite_l; eapply div_by_zero; eassumption.
Qed.

Lemma CircleFit_recovered_A (F : Type) (DF : Double F) (lapack : Lapack F)
    (data : list (Point F)) :
  CircleFit lapack data
  = (A <- recovered_A lapack data ;;
     marker_of_A A (fst (centroid data)) (snd (centroid data))).
Proof.
  unfold CircleFit, recovered_A.
  destruct (centroid data) as [x_hat y_hat]. reflexivity.
Qed.

(** C5, as amended.  [CircleFit] has no failure result for a degenerate
    fit: for every cluster whose recovered [A0] is zero, or whose
    closed-form [R2] is negative, it returns a marker all the same, and the
    radius the marker carries in [scale] is an infinity or a NaN; with [A0]
    zero the centre coordinates are infinities or NaNs as well. *)
Theorem CircleFit_degenerate_unguarded (lapack : Lapack float)
    (data : list (Point float)) (A0 A1 A2 A3 : float) :
  recovered_A lapack data = Ok [A0; A1; A2; A3] ->
  (A0 =? 0)%float = true \/ (R2_of A0 A1 A2 A3 <? 0)%float = true ->
  exists m,
    CircleFit lapack data = Ok m /\
    non_finite (scale_x m) = true /\
    non_finite (scale_y m) = true /\
    ((A0 =? 0)%float = true ->
     non_finite (pose_position_x m) = true /\
     non_finite (pose_position_y m) = true).
Proof.
  intros HA Hdeg.
  rewrite CircleFit_recovered_A, HA. cbn [bind].
  now apply marker_of_A_unguarded.
Qed.

(** C5, as amended, at [collinear_four], whose recovered [A] is
    [(0, 0, 1, 0)]. *)
Lemma CircleFit_degenerate_unguarded_witness :
  exists m,
    CircleFit (null_vector_lapack [0; 0; 1; 0]%float) collinear_four = Ok m /\
    non_finite (scale_x m) = true /\
    non_finite (scale_y m) = true /\
    ((0 =? 0)%float = true ->
     non_finite (pose_position_x m) = true /\
     non_finite (pose_position_y m) = true).
Proof.
  apply (CircleFit_degenerate_unguarded
           (null_vector_lapack [0; 0; 1; 0]%float) collinear_four 0 0 1 0).
  - vm_compute; reflexivity.
  - left. reflexivity.
Defined.

(** C5, as stated, fails.  [collinear_four] has its centroid at the origin
    and [(0, 0, 1, 0)] lies in the null space of its data matrix, so it is
    the right-singular vector of a zero singular value.  With it [CircleFit]
    returns a marker, not a failure: a NaN and an infinity as the centre and
    an infinite radius. *)
Lemma CircleFit_collinear_is_infinite :
  centroid collinear_four = (0, 0)%float /\
  map (fun row => dot row [0; 0; 1; 0]%float)
      (data_matrix (shift_to_centroid 0%float 0%float collinear_four))
    = [0; 0; 0; 0]%float /\
  CircleFit (null_vector_lapack [0; 0; 1; 0]%float) collinear_four
    = Ok {| ns := "real"%string;
            id := 1;
            type := CYLINDER;
            pose_position_x := nan;
            pose_position_y := neg_infinity;
            scale_x := infinity;
            scale_y := infinity;
            color_a := 1%float;
            color_r := 1%float;
            color_g := 1%float;
            color_b := 1%float;
            frame_locked := true |}.
Proof. repeat split; vm_compute; reflexivity. Qed.

(** ** Translation of a cluster *)






